(** * The Google Charts loader service (app/services/google-charts.js)

    The service owns one tracked flag, [loaded], and one operation,
    [load()], which performs the drop-guarded task [loadTask].  The task is
    a generator with two suspension points:

      line 14   let api = yield loadJsApi();
      line 15   yield loadCoreChart(api);
      line 16   this.loaded = true;
      line 17   document.dispatchEvent(createEvent('googleChartsLoaded'));

    Everything runs on the page's single-threaded event loop, so the
    service is modelled as a deterministic machine: a [state] holding the
    flag, the global [window.google], the script elements the service
    appended to [document.body], the running task instances and a history
    of side effects; and a [step] function that takes one [event] of the
    event loop (a call of [load()], the load or error event of a script
    element, the resumption of a suspended task instance, the package
    loader calling its callback).  An interleaving is a list of events. *)

From stdpp Require Import base list strings.

Module GoogleCharts.

(** ** Values of the page *)

(** [window.google] is either absent or the namespace object the jsapi
    script installs. *)
Inductive jsval := Undefined | Namespace.

#[global] Instance jsval_eq_dec : EqDecision jsval.
Proof. solve_decision. Defined.

(** The test [!window.google] of line 33 looks at truthiness. *)
Definition truthy (v : jsval) : bool :=
  match v with
  | Undefined => false
  | Namespace => true
  end.

(** A script element appended by [loadScript]: its [src] and whether the
    browser has fired its load or error event yet. *)
Inductive script_status := Pending | Loaded | Errored.

Record script_element := { src : string; status : script_status }.

Definition mark (st : script_status) (el : script_element) : script_element :=
  {| src := src el; status := st |}.

(** A DOM event object.  [detail] is the payload slot; only [CustomEvent]
    objects initialised with one carry a payload. *)
Record dom_event := {
  interface : string;
  ev_type : string;
  bubbles : bool;
  cancelable : bool;
  detail : option string
}.

(** [document.createEvent(interface)]: a fresh, uninitialised event. *)
Definition document_createEvent (iface : string) : dom_event :=
  {| interface := iface; ev_type := EmptyString;
     bubbles := false; cancelable := false; detail := None |}.

(** [event.initEvent(type, bubbles, cancelable)]. *)
Definition initEvent (e : dom_event) (name : string) (b c : bool) : dom_event :=
  {| interface := interface e; ev_type := name;
     bubbles := b; cancelable := c; detail := detail e |}.

(** Lines 48-52. *)
Definition createEvent (name : string) : dom_event :=
  let event := document_createEvent "Event" in
  initEvent event name true true.

(** ** Promises and task instances *)

(** The promise a task instance is suspended on.  A pending promise names
    what settles it: the load/error event of the [i]-th script element
    (line 26-27: [script.onload = resolve; script.onerror = reject]) or the
    [k]-th callback handed to the package loader (line 43:
    [callback: resolve]). *)
Inductive promise :=
| OnScript (i : nat)
| OnCallback (k : nat)
| Fulfilled (v : jsval)
| Rejected.

#[global] Instance promise_eq_dec : EqDecision promise.
Proof. solve_decision. Defined.

(** The two [yield]s of the generator. *)
Inductive yield_point := AtLoadJsApi | AtLoadCoreChart.

Record task_instance := { at_yield : yield_point; awaiting : promise }.

(** ** Side effects, in the order they happen *)

Inductive effect :=
| AppendChild (script_src : string)   (* document.body.appendChild(script) *)
| ApiLoad (module_name version : string) (packages : list string)
                                      (* api.load(name, version, {packages, callback}) *)
| SetLoaded                           (* this.loaded = true *)
| DispatchEvent (e : dom_event).      (* document.dispatchEvent(e) *)

(** ** The state of the page and of the service *)

Record state := {
  loaded : bool;                  (* this.loaded (line 7) *)
  window_google : jsval;          (* window.google *)
  body : list script_element;     (* scripts appended to document.body *)
  running : list task_instance;   (* instances of loadTask in flight *)
  callbacks : nat;                (* callbacks handed to api.load so far *)
  history : list effect           (* side effects, oldest first *)
}.

Definition set_running (r : list task_instance) (s : state) : state :=
  {| loaded := loaded s; window_google := window_google s; body := body s;
     running := r; callbacks := callbacks s; history := history s |}.

Definition jsapi_url : string := "https://www.google.com/jsapi".

(** The page before the service is used: flag false (line 7), nothing
    appended, nothing in flight.  [g] is whether some other code already
    put the namespace on the page. *)
Definition init (g : jsval) : state :=
  {| loaded := false; window_google := g; body := [];
     running := []; callbacks := 0; history := [] |}.

(** ** The functions of the source *)

(** Lines 22-30, up to the [await]: the executor creates the element,
    wires [onload]/[onerror] to the promise and appends it.  The result is
    the promise, pending on the new element. *)
Definition loadScript (url : string) (s : state) : state * promise :=
  ({| loaded := loaded s; window_google := window_google s;
      body := body s ++ [{| src := url; status := Pending |}];
      running := running s; callbacks := callbacks s;
      history := history s ++ [AppendChild url] |},
   OnScript (length (body s))).

(** Lines 32-37, up to the first suspension.  With the global present the
    function returns at once and its promise is fulfilled with
    [window.google]; otherwise it awaits [loadScript] and line 36 runs when
    the script has fired (see [step]). *)
Definition loadJsApi (s : state) : state * promise :=
  if truthy (window_google s) then (s, Fulfilled (window_google s))
  else loadScript jsapi_url s.

(** Lines 39-46.  The executor calls [api.load] with the callback
    [resolve]; on [undefined] the member access throws inside the executor
    and the promise is rejected. *)
Definition loadCoreChart (api : jsval) (s : state) : state * promise :=
  match api with
  | Namespace =>
      ({| loaded := loaded s; window_google := window_google s;
          body := body s; running := running s;
          callbacks := S (callbacks s);
          history := history s ++ [ApiLoad "visualization" "1.0" ["corechart"]] |},
       OnCallback (callbacks s))
  | Undefined => (s, Rejected)
  end.

(** Lines 16-17, the tail of the generator, for the instance at index [n]
    of [running]: set the flag, then dispatch the event on [document]; the
    instance is finished. *)
Definition finalize (n : nat) (s : state) : state :=
  {| loaded := true; window_google := window_google s; body := body s;
     running := delete n (running s); callbacks := callbacks s;
     history := history s ++
                [SetLoaded; DispatchEvent (createEvent "googleChartsLoaded")] |}.

(** A new instance runs the generator to its first [yield] (line 14). *)
Definition loadTask_start (s : state) : state :=
  let '(s', p) := loadJsApi s in
  set_running (running s' ++ [{| at_yield := AtLoadJsApi; awaiting := p |}]) s'.

(** Modelled from the spec: the [.drop()] modifier of line 18 comes from
    the ember-concurrency library, which is not part of the sources.  The
    spec's drop guard discards a new request (it is neither queued nor
    restarted) if an instance is already in progress, and runs it
    otherwise. *)
Definition perform (s : state) : state :=
  match running s with
  | [] => loadTask_start s
  | _ :: _ => s
  end.

(** Lines 9-11. *)
Definition load (s : state) : state := perform s.

(** ** The event loop *)

Inductive event :=
| Load                                     (* some caller invokes load() *)
| ScriptOnload (i : nat) (installs : bool) (* script i ran and fired load *)
| ScriptOnerror (i : nat)                  (* script i fired error *)
| Resume (n : nat)                         (* continuation of instance n *)
| PackageCallback (k : nat).               (* the loader calls callback k *)

Definition script_pending (s : state) (i : nat) : bool :=
  match body s !! i with
  | Some el => match status el with Pending => true | _ => false end
  | None => false
  end.

(** Settling the promise [w] with [r] moves every instance suspended on
    [w]. *)
Definition settle (w r : promise) (t : task_instance) : task_instance :=
  if decide (awaiting t = w)
  then {| at_yield := at_yield t; awaiting := r |}
  else t.

(** The browser fires the load or error event of script [i]: the element
    is no longer pending, the global is now [g], and the promise of the
    element is settled with [r]. *)
Definition fire (i : nat) (st : script_status) (g : jsval) (r : promise)
    (s : state) : state :=
  {| loaded := loaded s; window_google := g;
     body := alter (mark st) i (body s);
     running := settle (OnScript i) r <$> running s;
     callbacks := callbacks s; history := history s |}.

(** The generator of instance [n] continues after its promise settled.
    After line 14 it calls [loadCoreChart(api)] and suspends at line 15;
    after line 15 it runs lines 16-17.  A rejection is thrown at the
    [yield]; the generator has no [try], so the instance ends there and the
    rest of the body is not run.  An instance whose promise is still
    pending does not continue. *)
Definition loadTask_resume (n : nat) (t : task_instance) (s : state) : state :=
  match awaiting t with
  | Fulfilled v =>
      match at_yield t with
      | AtLoadJsApi =>
          let '(s', p) := loadCoreChart v s in
          set_running
            (<[n := {| at_yield := AtLoadCoreChart; awaiting := p |}]> (running s')) s'
      | AtLoadCoreChart => finalize n s
      end
  | Rejected => set_running (delete n (running s)) s
  | OnScript _ | OnCallback _ => s
  end.

(** One turn of the event loop.  The load event of a pending script
    fulfils the promise of [loadScript]; [loadJsApi] then returns
    [window.google] (line 36) as the script left it.  The error event
    rejects it (line 27), and the rejection passes through [loadJsApi].
    The callback of the package loader is [resolve] (line 43).  Events for
    a script that is not pending, an instance that does not exist, or a
    callback nobody waits for, change nothing. *)
Definition step (s : state) (e : event) : state :=
  match e with
  | Load => load s
  | ScriptOnload i installs =>
      if script_pending s i then
        let g := if installs then Namespace else window_google s in
        fire i Loaded g (Fulfilled g) s
      else s
  | ScriptOnerror i =>
      if script_pending s i
      then fire i Errored (window_google s) Rejected s
      else s
  | Resume n =>
      match running s !! n with
      | Some t => loadTask_resume n t s
      | None => s
      end
  | PackageCallback k =>
      set_running (settle (OnCallback k) (Fulfilled Undefined) <$> running s) s
  end.

Definition run (s : state) (tr : list event) : state := foldl step s tr.

(** ** Traces and runs *)

(** [n] calls of [load()] in a row. *)
Definition calls (n : nat) : list event := replicate n Load.

(** ** Whole runs of the task *)

Definition suspended (y : yield_point) (p : promise) : task_instance :=
  {| at_yield := y; awaiting := p |}.

(** The jsapi script element, in a given status. *)
Definition jsapi_script (st : script_status) : script_element :=
  {| src := jsapi_url; status := st |}.

(** The effects of lines 15-17 of one run. *)
Definition completion : list effect :=
  [ApiLoad "visualization" "1.0" ["corechart"]; SetLoaded;
   DispatchEvent (createEvent "googleChartsLoaded")].

(** The events dispatched on [document], read off a history. *)
Definition dispatched (h : list effect) : list dom_event :=
  omap (λ x, match x with DispatchEvent e => Some e | _ => None end) h.

(** The events of a run of [load()], started in state [s], in which both
    asynchronous steps succeed: the call; if the global is absent, the load
    event of the script appended by the call, the script having installed
    the global; the resumption at line 14; the callback of the package
    loader; the resumption at line 15.  Further calls of [load()] may arrive
    at any point in between: [n1] to [n4] of them. *)
Definition successful_run (s : state) (n1 n2 n3 n4 : nat) : list event :=
  [Load] ++ calls n1 ++
  (if truthy (window_google s) then []
   else [ScriptOnload (length (body s)) true] ++ calls n2) ++
  [Resume 0] ++ calls n3 ++
  [PackageCallback (callbacks s)] ++ calls n4 ++ [Resume 0].

(** The events of a run in which the script element, appended at index
    [i] of the body, fails to load: the call, the error event, the
    resumption at line 14, which throws. *)
Definition failed_run_at (i n1 n2 : nat) : list event :=
  [Load] ++ calls n1 ++ [ScriptOnerror i] ++ calls n2 ++ [Resume 0].

Definition failed_run (s : state) (n1 n2 : nat) : list event :=
  failed_run_at (length (body s)) n1 n2.

(** One failed run after the other, the first appending at index [i]; each
    element of [ns] gives the numbers of extra calls during one run. *)
Fixpoint failed_runs (i : nat) (ns : list (nat * nat)) : list event :=
  match ns with
  | [] => []
  | (n1, n2) :: ns' => failed_run_at i n1 n2 ++ failed_runs (S i) ns'
  end.

(** An event other than a script that fails to load or that loads without
    installing the global. *)
Definition script_ok (e : event) : bool :=
  match e with
  | ScriptOnerror _ => false
  | ScriptOnload _ installs => installs
  | _ => true
  end.

(** An instance that is past the presence check with the namespace in
    hand: its next resumption calls [loadCoreChart(api)], or it has called
    it already. *)
Definition in_handshake (t : task_instance) : Prop :=
  match at_yield t, awaiting t with
  | AtLoadJsApi, Fulfilled Namespace => True
  | AtLoadCoreChart, OnCallback _ => True
  | AtLoadCoreChart, Fulfilled _ => True
  | _, _ => False
  end.

(** At most one script in the body, and if there is one, it either has
    installed the global or is the one the instance in flight waits for. *)
Definition one_script (s : state) : Prop :=
  body s = [] ∨
  ∃ el, body s = [el] ∧
        (window_google s = Namespace ∨
         running s = [suspended AtLoadJsApi (OnScript 0)]).

(** ** The states the service can be in *)

(** What an instance in flight says about the page. *)
Definition instance_ok (s : state) (t : task_instance) : Prop :=
  match at_yield t, awaiting t with
  | AtLoadJsApi, OnScript i =>
      window_google s = Undefined ∧ script_pending s i = true
  | AtLoadJsApi, Fulfilled v => v = window_google s
  | AtLoadCoreChart, OnCallback k =>
      window_google s = Namespace ∧ k < callbacks s
  | AtLoadCoreChart, Fulfilled _ => window_google s = Namespace
  | _, Rejected => window_google s = Undefined
  | AtLoadJsApi, OnCallback _ | AtLoadCoreChart, OnScript _ => False
  end.

Record consistent (s : state) : Prop := {
  one_instance : length (running s) ≤ 1;
  instances_ok : Forall (instance_ok s) (running s);
  pending_awaited : ∀ i, script_pending s i = true →
    running s = [{| at_yield := AtLoadJsApi; awaiting := OnScript i |}];
  loaded_google : loaded s = true → window_google s = Namespace
}.

(** ** Counting and further runs *)

(** The calls [api.load] has received, read off a history. *)
Definition api_calls (h : list effect) : list (string * string * list string) :=
  omap (λ x, match x with ApiLoad m v p => Some (m, v, p) | _ => None end) h.

(** The number of calls of [load()] in a trace. *)
Fixpoint count_calls (tr : list event) : nat :=
  match tr with
  | [] => 0
  | Load :: tr' => S (count_calls tr')
  | _ :: tr' => count_calls tr'
  end.

(** An instance that has called [api.load] and has not run lines 16-17
    yet. *)
Definition handshake_open (t : task_instance) : bool :=
  match at_yield t, awaiting t with
  | AtLoadCoreChart, (OnCallback _ | Fulfilled _) => true
  | _, _ => false
  end.

Definition open_handshakes (r : list task_instance) : nat :=
  length (List.filter handshake_open r).

(** The four effects the source has, each with the arguments the source
    gives it. *)
Definition fixed_effect (x : effect) : Prop :=
  x = AppendChild jsapi_url ∨
  x = ApiLoad "visualization" "1.0" ["corechart"] ∨
  x = SetLoaded ∨
  x = DispatchEvent (createEvent "googleChartsLoaded").

(** The events of a run whose script element loads but leaves
    [window.google] undefined: the resumption at line 14 calls
    [loadCoreChart(undefined)], whose promise is rejected, and the
    resumption at line 15 throws. *)
Definition unusable_run (s : state) (n1 n2 n3 : nat) : list event :=
  [Load] ++ calls n1 ++ [ScriptOnload (length (body s)) false] ++ calls n2 ++
  [Resume 0] ++ calls n3 ++ [Resume 0].


(** ** Basic facts about traces *)


Lemma run_app (s : state) (t1 t2 : list event) :
  run s (t1 ++ t2) = run (run s t1) t2.
Proof. apply foldl_app. Qed.

Lemma run_cons (s : state) (e : event) (tr : list event) :
  run s (e :: tr) = run (step s e) tr.
Proof. reflexivity. Qed.

Lemma load_busy (s : state) :
  running s ≠ [] → step s Load = s.
Proof.
  intros Hbusy. cbn. unfold load, perform.
  destruct (running s); [congruence | reflexivity].
Qed.

Lemma calls_busy (s : state) (n : nat) :
  running s ≠ [] → run s (calls n) = s.
Proof.
  intros Hbusy. induction n as [|n IH]; [reflexivity|].
  unfold calls. cbn [replicate]. rewrite run_cons, load_busy by done. exact IH.
Qed.

(** ** Pending scripts *)

Lemma script_pending_body (s s' : state) (i : nat) :
  body s' = body s → script_pending s' i = script_pending s i.
Proof. unfold script_pending. intros ->. reflexivity. Qed.

Lemma script_pending_fire (i j : nat) st g r (s : state) :
  st ≠ Pending →
  script_pending (fire i st g r s) j = true →
  script_pending s j = true ∧ j ≠ i.
Proof.
  unfold script_pending, fire. cbn. intros Hst.
  destruct (decide (i = j)) as [->|Hne].
  - rewrite list_lookup_alter_eq. destruct (body s !! j); cbn; [|done].
    destruct st; done.
  - rewrite list_lookup_alter_ne by done. done.
Qed.

Lemma script_pending_loadScript (url : string) (s : state) (j : nat) :
  script_pending (loadScript url s).1 j = true →
  script_pending s j = true ∨ j = length (body s).
Proof.
  unfold script_pending, loadScript. cbn.
  destruct (decide (j < length (body s))) as [Hlt|Hge].
  - rewrite lookup_app_l by done. auto.
  - destruct (decide (j = length (body s))) as [->|Hne]; [auto|].
    rewrite lookup_ge_None_2; [done|]. rewrite length_app. cbn. lia.
Qed.

Lemma script_pending_new (url : string) (s : state) :
  script_pending (loadScript url s).1 (length (body s)) = true.
Proof.
  unfold script_pending, loadScript. cbn.
  rewrite lookup_app_r by done. rewrite Nat.sub_diag. reflexivity.
Qed.

Lemma consistent_init (g : jsval) : consistent (init g).
Proof.
  split; cbn; [lia | constructor | | done].
  intros i. unfold script_pending. cbn. done.
Qed.

Lemma consistent_idle_no_pending (s : state) (i : nat) :
  consistent s → running s = [] → script_pending s i = false.
Proof.
  intros Hc Hidle. destruct (script_pending s i) eqn:E; [|reflexivity].
  apply (pending_awaited s Hc) in E. congruence.
Qed.

Lemma consistent_load (s : state) : consistent s → consistent (load s).
Proof.
  intros Hc. unfold load, perform.
  destruct (running s) as [|t r] eqn:Hrun; [|exact Hc].
  unfold loadTask_start, loadJsApi.
  destruct (window_google s) eqn:Hg; cbn [truthy].
  - (* the global is absent: a script is appended *)
    split; cbn; rewrite ?Hrun; cbn.
    + lia.
    + constructor; [|constructor]. unfold instance_ok; cbn. split; [exact Hg|].
      apply (script_pending_new jsapi_url s).
    + intros j Hj. apply (script_pending_loadScript jsapi_url s) in Hj.
      destruct Hj as [Hj| ->]; [|reflexivity].
      rewrite consistent_idle_no_pending in Hj by done. discriminate.
    + intros Hl. apply (loaded_google s Hc) in Hl. congruence.
  - (* the global is present: nothing is appended *)
    split; cbn; rewrite ?Hrun; cbn.
    + lia.
    + constructor; [|constructor]. unfold instance_ok; cbn. congruence.
    + intros j Hj. rewrite (script_pending_body s) in Hj by reflexivity.
      rewrite consistent_idle_no_pending in Hj by done. discriminate.
    + intros _. exact Hg.
Qed.

Lemma consistent_fire (s : state) (i : nat) st g r :
  consistent s → script_pending s i = true → st ≠ Pending →
  (r = Rejected ∧ g = window_google s) ∨ r = Fulfilled g →
  (g = Undefined → window_google s = Undefined) →
  consistent (fire i st g r s).
Proof.
  intros Hc Hp Hst Hr Hg.
  pose proof (pending_awaited s Hc i Hp) as Hrun.
  pose proof (instances_ok s Hc) as Hok. rewrite Hrun in Hok.
  apply Forall_cons_1 in Hok as [[Hgs _] _]. cbn in Hgs.
  assert (Hsettled : settle (OnScript i) r <$> running s
                     = [{| at_yield := AtLoadJsApi; awaiting := r |}]).
  { rewrite Hrun. cbn. unfold settle. cbn. rewrite decide_True by reflexivity.
    reflexivity. }
  split; cbn [running fire loaded window_google]; rewrite ?Hsettled.
  - cbn. lia.
  - constructor; [|constructor]. unfold instance_ok. cbn.
    destruct Hr as [[-> ->]| ->]; done.
  - intros j Hj. apply script_pending_fire in Hj as [Hj Hne]; [|done].
    apply (pending_awaited s Hc) in Hj. rewrite Hrun in Hj. congruence.
  - intros Hl. apply (loaded_google s Hc) in Hl. congruence.
Qed.

Lemma consistent_resume (s : state) (t : task_instance) :
  consistent s → running s = [t] → consistent (loadTask_resume 0 t s).
Proof.
  intros Hc Hrun.
  pose proof (instances_ok s Hc) as Hok. rewrite Hrun in Hok.
  apply Forall_cons_1 in Hok as [Hok _].
  assert (Hnp : ∀ j, awaiting t ≠ OnScript j → script_pending s j = false).
  { intros j Hne. destruct (script_pending s j) eqn:E; [|reflexivity].
    apply (pending_awaited s Hc) in E. rewrite Hrun in E.
    injection E as ->. cbn in Hne. congruence. }
  destruct t as [y p]. unfold loadTask_resume. cbn [awaiting at_yield] in *.
  destruct p as [i|k|v|]; try exact Hc.
  - destruct y; unfold instance_ok in Hok; cbn in Hok.
    + (* line 15 is reached *)
      subst v. unfold loadCoreChart.
      destruct (window_google s) eqn:Hg.
      * split; cbn; rewrite ?Hrun; cbn.
        -- lia.
        -- constructor; [|constructor]. done.
        -- intros j Hj. rewrite (script_pending_body s) in Hj by reflexivity.
           rewrite Hnp in Hj by done. discriminate.
        -- intros Hl. apply (loaded_google s Hc) in Hl. congruence.
      * split; cbn; rewrite ?Hrun; cbn.
        -- lia.
        -- constructor; [|constructor]. unfold instance_ok; cbn. split; [done|lia].
        -- intros j Hj. rewrite (script_pending_body s) in Hj by reflexivity.
           rewrite Hnp in Hj by done. discriminate.
        -- done.
    + (* lines 16-17 *)
      split; cbn; rewrite ?Hrun; cbn.
      * lia.
      * constructor.
      * intros j Hj. rewrite (script_pending_body s) in Hj by reflexivity.
        rewrite Hnp in Hj by done. discriminate.
      * done.
  - split; cbn; rewrite ?Hrun; cbn.
    + lia.
    + constructor.
    + intros j Hj. rewrite (script_pending_body s) in Hj by reflexivity.
      rewrite Hnp in Hj by done. discriminate.
    + apply (loaded_google s Hc).
Qed.

Lemma consistent_callback (s : state) (k : nat) :
  consistent s →
  consistent (set_running (settle (OnCallback k) (Fulfilled Undefined) <$> running s) s).
Proof.
  intros Hc. split; cbn.
  - rewrite length_fmap. apply (one_instance s Hc).
  - apply Forall_fmap. eapply Forall_impl; [apply (instances_ok s Hc)|].
    intros [y p] Hok. unfold settle, instance_ok in *. cbn in *.
    destruct (decide (p = OnCallback k)) as [->|]; cbn; [|exact Hok].
    destruct y; [done | tauto].
  - intros j Hj. rewrite (script_pending_body s) in Hj by reflexivity.
    apply (pending_awaited s Hc) in Hj. rewrite Hj. reflexivity.
  - apply (loaded_google s Hc).
Qed.

Lemma consistent_step (s : state) (e : event) :
  consistent s → consistent (step s e).
Proof.
  intros Hc. destruct e as [|i installs|i|n|k]; cbn [step].
  - apply consistent_load, Hc.
  - destruct (script_pending s i) eqn:Hp; [|exact Hc].
    apply consistent_fire; auto. destruct installs; done.
  - destruct (script_pending s i) eqn:Hp; [|exact Hc].
    apply consistent_fire; auto.
  - destruct (running s !! n) as [t|] eqn:Hn; [|exact Hc].
    pose proof (one_instance s Hc) as Hlen.
    destruct (running s) as [|t' [|t'' r]] eqn:Hrun; cbn in Hlen; try lia.
    + done.
    + destruct n; [|done]. injection Hn as ->.
      apply consistent_resume; done.
  - apply consistent_callback, Hc.
Qed.

Lemma consistent_run (s : state) (tr : list event) :
  consistent s → consistent (run s tr).
Proof.
  revert s. induction tr as [|e tr IH]; intros s Hc; [exact Hc|].
  rewrite run_cons. apply IH, consistent_step, Hc.
Qed.

Lemma reachable_consistent (g : jsval) (tr : list event) :
  consistent (run (init g) tr).
Proof. apply consistent_run, consistent_init. Qed.

Lemma settle_hit (w r : promise) (y : yield_point) :
  settle w r (suspended y w) = suspended y r.
Proof. unfold settle, suspended. cbn. rewrite decide_True; done. Qed.

Lemma alter_last (b : list script_element) (el : script_element) f :
  alter f (length b) (b ++ [el]) = b ++ [f el].
Proof.
  rewrite <- (Nat.add_0_r (length b)). rewrite alter_app_r. reflexivity.
Qed.

Lemma script_pending_last l g (b : list script_element) r c h url :
  script_pending
    {| loaded := l; window_google := g;
       body := b ++ [{| src := url; status := Pending |}];
       running := r; callbacks := c; history := h |} (length b) = true.
Proof.
  unfold script_pending. cbn. rewrite lookup_app_r by done.
  rewrite Nat.sub_diag. reflexivity.
Qed.

#[local] Arguments run : simpl never.
#[local] Arguments calls : simpl never.
#[local] Arguments settle : simpl never.
#[local] Arguments script_pending : simpl never.

Ltac norm := cbn; unfold set_running, fire, finalize; cbn.
Ltac skip_calls := rewrite run_app, calls_busy by (cbn; congruence).
Ltac one_event := rewrite run_cons; norm.
Ltac fold_suspended :=
  repeat match goal with
  | |- context [settle ?w ?r {| at_yield := ?y; awaiting := ?w |}] =>
      change (settle w r {| at_yield := y; awaiting := w |})
        with (settle w r (suspended y w));
      rewrite settle_hit
  end.

Lemma successful_run_spec (s : state) (n1 n2 n3 n4 : nat) :
  running s = [] →
  run s (successful_run s n1 n2 n3 n4) =
  {| loaded := true; window_google := Namespace;
     body := if truthy (window_google s) then body s
             else body s ++ [jsapi_script Loaded];
     running := []; callbacks := S (callbacks s);
     history := history s ++
                (if truthy (window_google s) then []
                 else [AppendChild jsapi_url]) ++ completion |}.
Proof.
  destruct s as [l g b r c h]. cbn. intros ->. unfold successful_run. cbn.
  one_event. unfold load, perform, loadTask_start, loadJsApi. cbn.
  destruct g; norm.
  - skip_calls. one_event. rewrite script_pending_last. norm.
    fold_suspended. rewrite alter_last. norm.
    skip_calls. one_event.
    skip_calls. one_event. fold_suspended. norm.
    skip_calls. one_event.
    unfold run, completion, jsapi_script, mark. cbn.
    rewrite <- !app_assoc. reflexivity.
  - skip_calls. one_event.
    skip_calls. one_event. fold_suspended. norm.
    skip_calls. one_event.
    unfold run, completion. cbn. rewrite <- !app_assoc. reflexivity.
Qed.

Lemma failed_run_spec (s : state) (n1 n2 : nat) :
  running s = [] → window_google s = Undefined →
  run s (failed_run s n1 n2) =
  {| loaded := loaded s; window_google := Undefined;
     body := body s ++ [jsapi_script Errored];
     running := []; callbacks := callbacks s;
     history := history s ++ [AppendChild jsapi_url] |}.
Proof.
  destruct s as [l g b r c h]. cbn. intros -> ->. unfold failed_run. cbn.
  one_event. unfold load, perform, loadTask_start, loadJsApi. norm.
  skip_calls. one_event. rewrite script_pending_last. norm.
  fold_suspended. rewrite alter_last. norm.
  skip_calls. one_event. reflexivity.
Qed.

Lemma failed_runs_spec (ns : list (nat * nat)) (s : state) :
  running s = [] → window_google s = Undefined →
  run s (failed_runs (length (body s)) ns) =
  {| loaded := loaded s; window_google := Undefined;
     body := body s ++ replicate (length ns) (jsapi_script Errored);
     running := []; callbacks := callbacks s;
     history := history s ++ replicate (length ns) (AppendChild jsapi_url) |}.
Proof.
  revert s. induction ns as [|[n1 n2] ns IH]; intros s Hidle Hg.
  - destruct s as [l g b r c h]. cbn in *. subst.
    rewrite !app_nil_r. reflexivity.
  - cbn [failed_runs]. rewrite run_app.
    change (failed_run_at (length (body s)) n1 n2) with (failed_run s n1 n2).
    rewrite failed_run_spec by done.
    set (s1 := {| loaded := loaded s; window_google := Undefined;
                  body := body s ++ [jsapi_script Errored];
                  running := []; callbacks := callbacks s;
                  history := history s ++ [AppendChild jsapi_url] |}).
    replace (S (length (body s))) with (length (body s1))
      by (cbn; rewrite length_app; cbn; lia).
    rewrite IH by reflexivity. cbn.
    rewrite <- !app_assoc. reflexivity.
Qed.

(** ** An idle service stays idle until [load()] is called *)

Lemma settle_miss (w r : promise) (t : task_instance) :
  awaiting t ≠ w → settle w r t = t.
Proof. intros Hne. unfold settle. rewrite decide_False; done. Qed.

Lemma idle_step (s : state) (e : event) :
  consistent s → running s = [] → e ≠ Load → step s e = s.
Proof.
  intros Hc Hidle Hne. destruct e as [|i installs|i|n|k]; cbn [step].
  - congruence.
  - rewrite consistent_idle_no_pending; done.
  - rewrite consistent_idle_no_pending; done.
  - rewrite Hidle. reflexivity.
  - rewrite Hidle. destruct s; cbn in *. subst. reflexivity.
Qed.

Lemma idle_quiet (s : state) (tr : list event) :
  consistent s → running s = [] → Load ∉ tr → run s tr = s.
Proof.
  intros Hc Hidle. induction tr as [|e tr IH]; intros Hno; [reflexivity|].
  rewrite run_cons, idle_step; [|done..|].
  - apply IH. intros Hin. apply Hno. by right.
  - intros ->. apply Hno. by left.
Qed.

(** ** An instance waiting for the package loader *)

Lemma waiting_step (s : state) (k : nat) (e : event) :
  running s = [suspended AtLoadCoreChart (OnCallback k)] →
  e ≠ PackageCallback k →
  running (step s e) = running s ∧ loaded (step s e) = loaded s ∧
  history (step s e) = history s ∧ callbacks (step s e) = callbacks s.
Proof.
  intros Hrun Hne. destruct e as [|i installs|i|n|k'].
  2-5: cbn [step].
  - rewrite load_busy; [done|]. rewrite Hrun. done.
  - destruct (script_pending s i); [|done]. unfold fire. cbn.
    rewrite Hrun. cbn. rewrite settle_miss; done.
  - destruct (script_pending s i); [|done]. unfold fire. cbn.
    rewrite Hrun. cbn. rewrite settle_miss; done.
  - rewrite Hrun. destruct n; cbn; done.
  - unfold set_running. cbn. rewrite Hrun. cbn.
    rewrite settle_miss; [done|]. cbn. congruence.
Qed.

(** ** The flag *)

Lemma loaded_step_mono (s : state) (e : event) :
  loaded s = true → loaded (step s e) = true.
Proof.
  intros Hl. destruct e as [|i installs|i|n|k]; cbn [step].
  - unfold load, perform. destruct (running s); [|done].
    unfold loadTask_start, loadJsApi. destruct (truthy (window_google s)); done.
  - destruct (script_pending s i); done.
  - destruct (script_pending s i); done.
  - destruct (running s !! n) as [[y p]|]; [|done].
    unfold loadTask_resume. cbn. destruct p as [| |v|]; [done..| |done].
    destruct y; [|done]. destruct v; done.
  - done.
Qed.

Lemma loaded_step_rise (s : state) (e : event) :
  loaded s = false → loaded (step s e) = true →
  ∃ n v, e = Resume n ∧
         running s !! n = Some (suspended AtLoadCoreChart (Fulfilled v)).
Proof.
  intros Hl. destruct e as [|i installs|i|n|k]; cbn [step].
  - unfold load, perform. destruct (running s); [|congruence].
    unfold loadTask_start, loadJsApi. destruct (truthy (window_google s)); cbn; congruence.
  - destruct (script_pending s i); cbn; congruence.
  - destruct (script_pending s i); cbn; congruence.
  - destruct (running s !! n) as [[y p]|] eqn:Hn; [|congruence].
    unfold loadTask_resume. cbn. destruct p as [| |v|]; try congruence.
    + destruct y; [destruct v; cbn; congruence|]. intros _. by exists n, v.
    + cbn. congruence.
  - cbn. congruence.
Qed.

(** ** How many scripts are appended *)

Lemma one_script_length (s : state) : one_script s → length (body s) ≤ 1.
Proof. intros [->|(el & -> & _)]; cbn; lia. Qed.

Lemma resume_page (n : nat) (t : task_instance) (s : state) :
  body (loadTask_resume n t s) = body s ∧
  window_google (loadTask_resume n t s) = window_google s.
Proof.
  unfold loadTask_resume. destruct (awaiting t) as [| |v|]; [done..| |done].
  destruct (at_yield t); [|done]. destruct v; done.
Qed.

Lemma one_script_load (s : state) : one_script s → one_script (load s).
Proof.
  intros Hone. unfold load, perform.
  destruct (running s) as [|t r] eqn:Hrun; [|exact Hone].
  unfold loadTask_start, loadJsApi. destruct (window_google s) eqn:Hg; cbn [truthy].
  - right. destruct Hone as [Hb|(el & Hb & [Hn|Hr])]; [|congruence..].
    unfold loadScript. cbn. rewrite Hb, Hrun. cbn. eauto.
  - destruct Hone as [Hb|(el & Hb & _)]; [by left|].
    right. exists el. cbn. auto.
Qed.

Lemma one_script_step (s : state) (e : event) :
  one_script s → script_ok e = true → one_script (step s e).
Proof.
  intros Hone Hok. destruct e as [|i installs|i|n|k]; cbn [step].
  - apply one_script_load, Hone.
  - cbn in Hok. subst installs.
    destruct (script_pending s i); [|exact Hone].
    destruct Hone as [Hb|(el & Hb & _)].
    + left. unfold fire. cbn. rewrite Hb. reflexivity.
    + right. unfold fire. cbn. rewrite Hb. destruct i; cbn; eauto.
  - discriminate.
  - destruct (running s !! n) as [t|] eqn:Hn; [|exact Hone].
    destruct (resume_page n t s) as [Hb Hg].
    destruct Hone as [Hb0|(el & Hb0 & [Hns|Hr])].
    + left. congruence.
    + right. exists el. split; [congruence|]. left. congruence.
    + rewrite Hr in Hn. destruct n; [|done]. injection Hn as <-.
      cbn. right. eauto.
  - destruct Hone as [Hb|(el & Hb & [Hns|Hr])].
    + by left.
    + right. exists el. cbn. auto.
    + right. exists el. cbn. split; [done|]. right.
      rewrite Hr. cbn. rewrite settle_miss; done.
Qed.

Lemma one_script_run (s : state) (tr : list event) :
  one_script s → forallb script_ok tr = true → one_script (run s tr).
Proof.
  revert s. induction tr as [|e tr IH]; intros s Hone Hok; [exact Hone|].
  cbn in Hok. apply andb_prop in Hok as [He Htr].
  rewrite run_cons. apply IH; [|exact Htr]. apply one_script_step; done.
Qed.

Lemma dispatched_app (h1 h2 : list effect) :
  dispatched (h1 ++ h2) = dispatched h1 ++ dispatched h2.
Proof. apply omap_app. Qed.

Lemma rejected_spec (s : state) (n1 : nat) :
  running s = [] → window_google s = Undefined →
  running (run s ([Load] ++ calls n1 ++ [ScriptOnerror (length (body s))]))
  = [suspended AtLoadJsApi Rejected].
Proof.
  destruct s as [l g b r c h]. cbn. intros -> ->.
  one_event. unfold load, perform, loadTask_start, loadJsApi. norm.
  skip_calls. one_event. rewrite script_pending_last. norm.
  fold_suspended. reflexivity.
Qed.

(** * The properties of the service *)

(** C1.  Under every interleaving of events at most one instance of the
    load task is in flight, and calls of [load()] that arrive while one is
    in flight change nothing: they are neither queued nor do they restart
    the instance. *)
Theorem drop_guard_at_most_one_run (g : jsval) (tr : list event) :
  let s := run (init g) tr in
  length (running s) ≤ 1 ∧
  (running s ≠ [] → ∀ n, run s (calls n) = s).
Proof.
  intros s. split.
  - apply one_instance, reachable_consistent.
  - intros Hbusy n. apply calls_busy, Hbusy.
Qed.

Lemma drop_guard_at_most_one_run_witness :
  run (run (init Undefined) [Load]) (calls 2) = run (init Undefined) [Load].
Proof.
  apply (drop_guard_at_most_one_run Undefined [Load]). vm_compute. discriminate.
Defined.

(** C2.  A run of [load()] in which the script (if one is needed) loads and
    the package loader calls back ends with the flag true and with exactly
    one more event dispatched on [document] than before the run, whatever
    further calls of [load()] arrive meanwhile. *)
Theorem successful_run_loaded_and_dispatched_once
    (s : state) (n1 n2 n3 n4 : nat) :
  running s = [] →
  let s' := run s (successful_run s n1 n2 n3 n4) in
  loaded s' = true ∧
  dispatched (history s') =
    dispatched (history s) ++ [createEvent "googleChartsLoaded"] ∧
  running s' = [].
Proof.
  intros Hidle s'. subst s'. rewrite successful_run_spec by done. cbn.
  split; [done|]. split; [|done].
  rewrite !dispatched_app. destruct (truthy (window_google s)); cbn;
    rewrite ?app_nil_r; reflexivity.
Qed.

Lemma successful_run_loaded_and_dispatched_once_witness :
  let s' := run (init Undefined)
              [Load; Load; ScriptOnload 0 true; Resume 0; Load;
               PackageCallback 0; Resume 0] in
  loaded s' = true ∧
  dispatched (history s') = [createEvent "googleChartsLoaded"] ∧
  running s' = [].
Proof.
  apply (successful_run_loaded_and_dispatched_once (init Undefined) 1 0 1 0).
  reflexivity.
Defined.

(** C3.  When the script element appended by a run fails to load, the
    promise the instance waits on is rejected; once the instance has
    resumed, the flag is false, the only effect of the run is the appended
    element (nothing was dispatched), no instance is in flight, nothing
    further happens until [load()] is called again, and that call starts a
    fresh run with a new script element. *)
Theorem script_failure_releases_guard
    (g : jsval) (tr : list event) (n1 n2 : nat) :
  let s := run (init g) tr in
  running s = [] → window_google s = Undefined →
  let s1 := run s ([Load] ++ calls n1 ++ [ScriptOnerror (length (body s))]) in
  let s2 := run s (failed_run s n1 n2) in
  running s1 = [suspended AtLoadJsApi Rejected] ∧
  loaded s2 = false ∧
  history s2 = history s ++ [AppendChild jsapi_url] ∧
  dispatched (history s2) = dispatched (history s) ∧
  running s2 = [] ∧
  (∀ tr', Load ∉ tr' → run s2 tr' = s2) ∧
  running (step s2 Load) =
    [suspended AtLoadJsApi (OnScript (S (length (body s))))].
Proof.
  intros s Hidle Hg s1 s2.
  assert (Hc : consistent s) by apply reachable_consistent.
  assert (Hc2 : consistent s2).
  { subst s2 s. rewrite <- run_app. apply reachable_consistent. }
  assert (Hl : loaded s = false).
  { destruct (loaded s) eqn:E; [|reflexivity].
    apply (loaded_google s Hc) in E. congruence. }
  split; [apply rejected_spec; done|].
  revert Hc2. subst s2. rewrite failed_run_spec by done. intros Hc2.
  repeat split; cbn.
  - exact Hl.
  - rewrite dispatched_app. cbn. apply app_nil_r.
  - intros tr' Hno. apply idle_quiet; done.
  - unfold load, perform, loadTask_start, loadJsApi. cbn.
    rewrite length_app. cbn. rewrite Nat.add_1_r. reflexivity.
Qed.

Lemma script_failure_releases_guard_witness :
  let s2 := run (init Undefined) [Load; Load; ScriptOnerror 0; Resume 0] in
  loaded s2 = false ∧ dispatched (history s2) = [] ∧ running s2 = [] ∧
  running (step s2 Load) = [suspended AtLoadJsApi (OnScript 1)].
Proof.
  destruct (script_failure_releases_guard Undefined [] 1 0)
    as (_ & Hl & _ & Hd & Hr & _ & Hn); [reflexivity..|].
  intros s2. split; [exact Hl|]. split; [exact Hd|]. split; [exact Hr|exact Hn].
Defined.

(** C4.  A call of [load()] made while [window.google] exists appends no
    script element.  If the call is performed, the instance resumes at
    line 14 with the namespace and calls the package loader; if the call is
    dropped, it changes nothing and the instance in flight is itself past
    the presence check, about to call the package loader or having called
    it. *)
Theorem global_present_no_script_but_handshake
    (g : jsval) (tr : list event) (n : nat) :
  let s := run (init g) tr in
  window_google s = Namespace →
  body (step s Load) = body s ∧
  history (step s Load) = history s ∧
  (running s = [] →
   let s' := run s ([Load] ++ calls n ++ [Resume 0]) in
   body s' = body s ∧
   history s' = history s ++ [ApiLoad "visualization" "1.0" ["corechart"]] ∧
   running s' = [suspended AtLoadCoreChart (OnCallback (callbacks s))]) ∧
  (running s ≠ [] →
   step s Load = s ∧ ∃ t, running s = [t] ∧ in_handshake t).
Proof.
  intros s Hg.
  assert (Hc : consistent s) by apply reachable_consistent.
  clearbody s. split; [|split; [|split]].
  - cbn. unfold load, perform. destruct (running s); [|done].
    unfold loadTask_start, loadJsApi. rewrite Hg. reflexivity.
  - cbn. unfold load, perform. destruct (running s); [|done].
    unfold loadTask_start, loadJsApi. rewrite Hg. reflexivity.
  - intros Hidle. destruct s as [l g' b r c h]. cbn in *. subst.
    one_event. unfold load, perform, loadTask_start, loadJsApi. norm.
    skip_calls. one_event. done.
  - intros Hbusy. split; [apply load_busy, Hbusy|].
    pose proof (one_instance s Hc) as Hlen.
    pose proof (instances_ok s Hc) as Hok.
    destruct (running s) as [|t [|t' r]]; cbn in Hlen; [done| |lia].
    exists t. split; [done|].
    apply Forall_cons_1 in Hok as [Hok _].
    unfold instance_ok, in_handshake in *.
    destruct (at_yield t), (awaiting t) as [| |v|]; try done;
      try (destruct Hok; congruence); try congruence.
    subst v. rewrite Hg. done.
Qed.

Lemma global_present_no_script_but_handshake_witness :
  let s := init Namespace in
  body (run s [Load; Load; Resume 0]) = [] ∧
  history (run s [Load; Load; Resume 0]) =
    [ApiLoad "visualization" "1.0" ["corechart"]].
Proof.
  destruct (global_present_no_script_but_handshake Namespace [] 1)
    as (_ & _ & Hrun & _); [reflexivity|].
  destruct Hrun as (Hb & Hh & _); [reflexivity|].
  intros s. split; [exact Hb | exact Hh].
Defined.

(** C5, as the code has it.  As long as no script element fails to load or
    loads without installing the global, at most one script element is
    appended, however many calls of [load()] are made and however they
    interleave with the other events; calling [load()] any number of times
    before the first call has resolved appends exactly one. *)
Theorem one_script_unless_failure :
  (∀ (g : jsval) (tr : list event),
     forallb script_ok tr = true → length (body (run (init g) tr)) ≤ 1) ∧
  (∀ n : nat, length (body (run (init Undefined) (calls (S n)))) = 1).
Proof.
  split.
  - intros g tr Hok. apply one_script_length, one_script_run; [|exact Hok].
    by left.
  - intros n. unfold calls. cbn [replicate]. rewrite run_cons.
    change (replicate n Load) with (calls n).
    rewrite calls_busy; [reflexivity|]. cbn. discriminate.
Qed.

Lemma one_script_unless_failure_witness :
  length (body (run (init Undefined)
                  [Load; Load; ScriptOnload 0 true; Resume 0;
                   PackageCallback 0; Resume 0; Load; Resume 0])) ≤ 1.
Proof. apply one_script_unless_failure. reflexivity. Defined.

(** C5 as stated fails: after a script element has failed to load, the
    next call of [load()] appends a second one. *)
Lemma second_script_after_failure :
  ¬ (length (body (run (init Undefined)
                     [Load; ScriptOnerror 0; Resume 0; Load])) ≤ 1).
Proof. vm_compute. lia. Qed.

(** C6.  When the instance resumes after the package loader has called
    back, it sets the flag and then, in the same step, dispatches on
    [document] a plain [Event] named [googleChartsLoaded] that bubbles, is
    cancelable and has no payload; these are the last two effects, in this
    order. *)
Theorem flag_then_event_on_completion (s : state) (n : nat) (v : jsval) :
  running s !! n = Some (suspended AtLoadCoreChart (Fulfilled v)) →
  let s' := step s (Resume n) in
  loaded s' = true ∧
  history s' = history s ++
    [SetLoaded;
     DispatchEvent {| interface := "Event"; ev_type := "googleChartsLoaded";
                      bubbles := true; cancelable := true; detail := None |}].
Proof.
  intros Hn s'. subst s'. cbn [step]. rewrite Hn. done.
Qed.

Lemma flag_then_event_on_completion_witness :
  let s := run (init Namespace) [Load; Resume 0; PackageCallback 0] in
  loaded s = false ∧
  loaded (step s (Resume 0)) = true ∧
  history (step s (Resume 0)) = history s ++
    [SetLoaded;
     DispatchEvent {| interface := "Event"; ev_type := "googleChartsLoaded";
                      bubbles := true; cancelable := true; detail := None |}].
Proof.
  intros s. split; [reflexivity|].
  apply (flag_then_event_on_completion s 0 Undefined). reflexivity.
Defined.

(** C7.  Two successful runs of [load()], one after the other, each call
    the package loader and each dispatch the event: the first run adds its
    script element (if the global was absent) and one completion to the
    history, the second adds one more completion and no script element. *)
Theorem sequential_runs_each_complete
    (s : state) (n1 n2 n3 n4 m1 m2 m3 m4 : nat) :
  running s = [] →
  let s1 := run s (successful_run s n1 n2 n3 n4) in
  let s2 := run s1 (successful_run s1 m1 m2 m3 m4) in
  history s1 = history s ++
    (if truthy (window_google s) then [] else [AppendChild jsapi_url]) ++
    completion ∧
  history s2 = history s1 ++ completion ∧
  dispatched (history s2) =
    dispatched (history s) ++
    [createEvent "googleChartsLoaded"; createEvent "googleChartsLoaded"] ∧
  callbacks s2 = S (S (callbacks s)) ∧
  body s2 = body s1.
Proof.
  intros Hidle s1 s2. subst s2 s1.
  rewrite (successful_run_spec s) by done.
  rewrite successful_run_spec by done. cbn.
  repeat split.
  rewrite !dispatched_app. destruct (truthy (window_google s)); cbn;
    rewrite <- ?app_assoc; reflexivity.
Qed.

Lemma sequential_runs_each_complete_witness :
  history (run (init Undefined)
             [Load; ScriptOnload 0 true; Resume 0; PackageCallback 0; Resume 0;
              Load; Resume 0; PackageCallback 1; Resume 0])
  = [AppendChild jsapi_url] ++ completion ++ completion.
Proof.
  destruct (sequential_runs_each_complete (init Undefined) 0 0 0 0 0 0 0 0)
    as (H1 & H2 & _); [reflexivity|].
  etransitivity; [exact H2|]. reflexivity.
Defined.

(** C8.  The flag starts false; the only step that turns it from false to
    true is the resumption of an instance at line 15 whose promise from
    [loadCoreChart] was fulfilled; and once true it stays true under every
    sequence of events, failed and repeated runs included. *)
Theorem loaded_flag_lifecycle :
  (∀ g : jsval, loaded (init g) = false) ∧
  (∀ (s : state) (e : event),
     loaded s = false → loaded (step s e) = true →
     ∃ n v, e = Resume n ∧
            running s !! n = Some (suspended AtLoadCoreChart (Fulfilled v))) ∧
  (∀ (s : state) (tr : list event),
     loaded s = true → loaded (run s tr) = true).
Proof.
  split; [done|]. split; [apply loaded_step_rise|].
  intros s tr. revert s. induction tr as [|e tr IH]; intros s Hl; [exact Hl|].
  rewrite run_cons. apply IH, loaded_step_mono, Hl.
Qed.

Lemma loaded_flag_lifecycle_witness :
  loaded (run (run (init Namespace)
                 [Load; Resume 0; PackageCallback 0; Resume 0])
            [Load; ScriptOnerror 0; Resume 0; Load; Resume 0]) = true.
Proof. apply loaded_flag_lifecycle. reflexivity. Defined.

(** C9.  While an instance waits for the callback of the package loader,
    no sequence of events without that callback, however long, moves it:
    the instance stays suspended at line 15, so [load()] stays pending, the
    flag and the history stay as they are. *)
Theorem package_load_waits_forever (s : state) (k : nat) (tr : list event) :
  running s = [suspended AtLoadCoreChart (OnCallback k)] →
  PackageCallback k ∉ tr →
  let s' := run s tr in
  running s' = [suspended AtLoadCoreChart (OnCallback k)] ∧
  loaded s' = loaded s ∧
  history s' = history s.
Proof.
  revert s. induction tr as [|e tr IH]; intros s Hrun Hno; [done|].
  cbn zeta. rewrite run_cons.
  destruct (waiting_step s k e Hrun) as (Hr & Hl & Hh & _).
  { intros ->. apply Hno. by left. }
  rewrite <- Hl, <- Hh. apply IH.
  - rewrite Hr. exact Hrun.
  - intros Hin. apply Hno. by right.
Qed.

Lemma package_load_waits_forever_witness :
  let s := run (init Namespace) [Load; Resume 0] in
  let s' := run s [Load; Resume 0; PackageCallback 1; ScriptOnload 0 true; Load] in
  running s' = [suspended AtLoadCoreChart (OnCallback 0)] ∧
  loaded s' = false ∧ history s' = history s.
Proof.
  intros s.
  apply (package_load_waits_forever s 0
           [Load; Resume 0; PackageCallback 1; ScriptOnload 0 true; Load]).
  - reflexivity.
  - rewrite !elem_of_cons, elem_of_nil. intros [H|[H|[H|[H|[H|[]]]]]]; discriminate.
Defined.

(** C10.  A script element that failed to load stays in the body, and
    while the global is absent every further run appends one more: after
    any number of failed runs the body holds one failed element per run,
    and the next call of [load()] appends yet another. *)
Theorem failed_scripts_accumulate (s : state) (ns : list (nat * nat)) :
  running s = [] → window_google s = Undefined →
  let s' := run s (failed_runs (length (body s)) ns) in
  body s' = body s ++ replicate (length ns) (jsapi_script Errored) ∧
  body (step s' Load) = body s' ++ [jsapi_script Pending].
Proof.
  intros Hidle Hg s'. subst s'. rewrite failed_runs_spec by done.
  split; reflexivity.
Qed.

Lemma failed_scripts_accumulate_witness :
  body (run (init Undefined)
          [Load; ScriptOnerror 0; Resume 0; Load; Load; ScriptOnerror 1; Resume 0])
  = [jsapi_script Errored; jsapi_script Errored].
Proof.
  apply (failed_scripts_accumulate (init Undefined) [(0, 0); (1, 0)]);
    reflexivity.
Defined.

(** * Further properties of the service *)

(** ** What a step adds to the history *)

Lemma step_history (s : state) (e : event) :
  (history (step s e) = history s ∧ loaded (step s e) = loaded s) ∨
  (history (step s e) = history s ++ [AppendChild jsapi_url] ∧
   loaded (step s e) = loaded s) ∨
  (history (step s e) =
     history s ++ [ApiLoad "visualization" "1.0" ["corechart"]] ∧
   loaded (step s e) = loaded s) ∨
  (history (step s e) =
     history s ++ [SetLoaded; DispatchEvent (createEvent "googleChartsLoaded")] ∧
   loaded (step s e) = true).
Proof.
  destruct e as [|i installs|i|n|k]; cbn [step].
  - unfold load, perform. destruct (running s); [|by left].
    unfold loadTask_start, loadJsApi.
    destruct (truthy (window_google s)); [by left|]. right; left. done.
  - destruct (script_pending s i); by left.
  - destruct (script_pending s i); by left.
  - destruct (running s !! n) as [[y p]|]; [|by left].
    unfold loadTask_resume. cbn. destruct p as [| |v|]; try by left.
    destruct y.
    + destruct v; [by left|]. right; right; left. done.
    + right; right; right. done.
  - by left.
Qed.

Lemma flag_event_step (s : state) (e : event) :
  (loaded s = true ↔ dispatched (history s) ≠ []) →
  (loaded (step s e) = true ↔ dispatched (history (step s e)) ≠ []).
Proof.
  intros Hinv.
  destruct (step_history s e) as [[-> ->]|[[-> ->]|[[-> ->]|[-> ->]]]];
    rewrite ?dispatched_app; cbn; rewrite ?app_nil_r; try exact Hinv.
  split; [|done]. intros _. destruct (dispatched (history s)); done.
Qed.

Lemma fixed_effect_step (s : state) (e : event) :
  Forall fixed_effect (history s) → Forall fixed_effect (history (step s e)).
Proof.
  intros Hinv. unfold fixed_effect.
  destruct (step_history s e) as [[-> _]|[[-> _]|[[-> _]|[-> _]]]];
    [exact Hinv|apply Forall_app; split; [exact Hinv|]..].
  - repeat constructor.
  - constructor; [|constructor]. right; left. reflexivity.
  - constructor; [|constructor; [|constructor]].
    + right; right; left. reflexivity.
    + right; right; right. reflexivity.
Qed.

(** X1.  In every state the service can reach, the flag is true exactly
    when at least one event has been dispatched on [document]. *)
Theorem flag_iff_event_dispatched (g : jsval) (tr : list event) :
  let s := run (init g) tr in
  loaded s = true ↔ dispatched (history s) ≠ [].
Proof.
  cbn zeta. induction tr as [|e tr IH] using rev_ind.
  - cbn. split; done.
  - rewrite run_app. apply flag_event_step, IH.
Qed.

(** X2.  Whatever the events, the service has no effects but its four:
    appending a script with the jsapi URL, calling [api.load] for the
    [corechart] package of [visualization] 1.0, setting the flag, and
    dispatching [googleChartsLoaded]. *)
Theorem only_fixed_effects (g : jsval) (tr : list event) :
  Forall fixed_effect (history (run (init g) tr)).
Proof.
  induction tr as [|e tr IH] using rev_ind.
  - constructor.
  - rewrite run_app. apply fixed_effect_step, IH.
Qed.

(** ** The global and the body *)

Lemma fmap_src_alter (st : script_status) (i : nat) (b : list script_element) :
  src <$> alter (mark st) i b = src <$> b.
Proof.
  revert i. induction b as [|el b IH]; intros [|i]; cbn; [done..|].
  f_equal. apply IH.
Qed.

Lemma step_body (s : state) (e : event) :
  (src <$> body (step s e) = src <$> body s ∧
   (window_google s = Namespace → window_google (step s e) = Namespace)) ∨
  (src <$> body (step s e) = (src <$> body s) ++ [jsapi_url] ∧
   window_google s = Undefined ∧ e = Load).
Proof.
  destruct e as [|i installs|i|n|k]; cbn [step].
  - unfold load, perform. destruct (running s); [|by left].
    unfold loadTask_start, loadJsApi.
    destruct (window_google s) eqn:Hg; cbn [truthy].
    + right. cbn. rewrite fmap_app. done.
    + left. cbn. done.
  - left. destruct (script_pending s i); [|done]. unfold fire. cbn.
    rewrite fmap_src_alter. split; [done|]. intros ->. by destruct installs.
  - left. destruct (script_pending s i); [|done]. unfold fire. cbn.
    rewrite fmap_src_alter. done.
  - left. destruct (running s !! n) as [t|]; [|done].
    destruct (resume_page n t s) as [-> ->]. done.
  - left. done.
Qed.

(** X3.  Once [window.google] is present it stays present, and from then
    on no script element is appended, whatever calls and events follow. *)
Theorem namespace_present_no_script_ever (s : state) (tr : list event) :
  window_google s = Namespace →
  window_google (run s tr) = Namespace ∧
  src <$> body (run s tr) = src <$> body s.
Proof.
  revert s. induction tr as [|e tr IH]; intros s Hg; [done|].
  rewrite run_cons.
  destruct (step_body s e) as [[Hb Hkeep]|(_ & Hu & _)]; [|congruence].
  rewrite <- Hb. apply IH, Hkeep, Hg.
Qed.

Lemma namespace_present_no_script_ever_witness :
  src <$> body (run (run (init Undefined) [Load; ScriptOnload 0 true])
                  [Load; Resume 0; Load; PackageCallback 0; Resume 0; Load;
                   ScriptOnerror 0; Load])
  = [jsapi_url].
Proof.
  apply (namespace_present_no_script_ever
           (run (init Undefined) [Load; ScriptOnload 0 true])).
  reflexivity.
Defined.

(** X4.  The service never removes a script element: over any sequence of
    events the body keeps the elements it had, in place, and what is added
    behind them are script elements with the jsapi URL. *)
Theorem scripts_never_removed (s : state) (tr : list event) :
  ∃ k : nat,
    src <$> body (run s tr) = (src <$> body s) ++ replicate k jsapi_url.
Proof.
  revert s. induction tr as [|e tr IH]; intros s.
  - exists 0. cbn. by rewrite app_nil_r.
  - rewrite run_cons. destruct (IH (step s e)) as [k Hk].
    destruct (step_body s e) as [[Hb _]|(Hb & _)].
    + exists k. rewrite Hk, Hb. done.
    + exists (S k). rewrite Hk, Hb, <- app_assoc. done.
Qed.

(** X5.  In every state the service can reach, a true flag means that
    [window.google] is present. *)
Theorem flag_implies_namespace (g : jsval) (tr : list event) :
  let s := run (init g) tr in
  loaded s = true → window_google s = Namespace.
Proof.
  intros s. apply loaded_google, reachable_consistent.
Qed.

Lemma flag_implies_namespace_witness :
  window_google
    (run (init Undefined)
       [Load; ScriptOnload 0 true; Resume 0; PackageCallback 0; Resume 0])
  = Namespace.
Proof.
  apply (flag_implies_namespace Undefined
           [Load; ScriptOnload 0 true; Resume 0; PackageCallback 0; Resume 0]).
  reflexivity.
Defined.

(** X6.  In every state the service can reach, at most one script element
    is waiting for its load or error event, and an instance of the task is
    in flight waiting for exactly that element. *)
Theorem at_most_one_script_loading (g : jsval) (tr : list event) (i j : nat) :
  let s := run (init g) tr in
  script_pending s i = true → script_pending s j = true →
  i = j ∧ running s = [suspended AtLoadJsApi (OnScript i)].
Proof.
  intros s Hi Hj.
  assert (Hc : consistent s) by apply reachable_consistent.
  pose proof (pending_awaited s Hc i Hi) as Hri.
  pose proof (pending_awaited s Hc j Hj) as Hrj.
  split; [congruence | exact Hri].
Qed.

Lemma at_most_one_script_loading_witness :
  running (run (init Undefined) [Load; ScriptOnerror 0; Resume 0; Load; Load])
  = [suspended AtLoadJsApi (OnScript 1)].
Proof.
  apply (at_most_one_script_loading Undefined
           [Load; ScriptOnerror 0; Resume 0; Load; Load] 1 1); reflexivity.
Defined.

(** ** Counting calls, handshakes and events *)

Lemma api_calls_app (h1 h2 : list effect) :
  api_calls (h1 ++ h2) = api_calls h1 ++ api_calls h2.
Proof. apply omap_app. Qed.

Lemma step_budget (s : state) (e : event) :
  length (dispatched (history (step s e))) + length (running (step s e))
  ≤ length (dispatched (history s)) + length (running s) + count_calls [e].
Proof.
  unfold dispatched. destruct e as [|i installs|i|n|k]; cbn [step count_calls].
  - unfold load, perform. destruct (running s) eqn:Hrun; [|rewrite Hrun; lia].
    unfold loadTask_start, loadJsApi.
    destruct (truthy (window_google s)); cbn; rewrite Hrun; cbn.
    + lia.
    + rewrite omap_app, length_app. cbn. lia.
  - destruct (script_pending s i); [|lia]. unfold fire. cbn.
    rewrite length_fmap. lia.
  - destruct (script_pending s i); [|lia]. unfold fire. cbn.
    rewrite length_fmap. lia.
  - destruct (running s !! n) as [[y p]|] eqn:Hn; [|lia].
    assert (Hdel : length (delete n (running s)) = length (running s) - 1).
    { apply length_delete. eauto. }
    pose proof (lookup_lt_Some _ _ _ Hn) as Hlt.
    unfold loadTask_resume. cbn. destruct p as [| |v|]; try lia.
    + destruct y.
      * destruct v; cbn; rewrite ?omap_app, ?length_app, length_insert;
          cbn; lia.
      * cbn. rewrite omap_app, length_app. cbn. lia.
    + cbn. lia.
  - cbn. rewrite length_fmap. lia.
Qed.

Lemma run_budget (s : state) (tr : list event) :
  length (dispatched (history (run s tr))) + length (running (run s tr))
  ≤ length (dispatched (history s)) + length (running s) + count_calls tr.
Proof.
  revert s. induction tr as [|e tr IH]; intros s; [unfold run; cbn; lia|].
  rewrite run_cons. pose proof (IH (step s e)) as H1.
  pose proof (step_budget s e) as H2.
  assert (count_calls (e :: tr) = count_calls [e] + count_calls tr)
    by (destruct e; reflexivity).
  lia.
Qed.

(** X7.  The service never dispatches more events than [load()] has been
    called: after any sequence of events, the events dispatched plus the
    instances still in flight number at most the calls made. *)
Theorem events_bounded_by_calls (g : jsval) (tr : list event) :
  let s := run (init g) tr in
  length (dispatched (history s)) + length (running s) ≤ count_calls tr.
Proof.
  intros s. pose proof (run_budget (init g) tr) as H. cbn in H. exact H.
Qed.

Lemma handshake_open_callback (k : nat) (t : task_instance) :
  handshake_open (settle (OnCallback k) (Fulfilled Undefined) t)
  = handshake_open t.
Proof.
  destruct t as [y p]. unfold settle. cbn. case_decide as Hp; [|done].
  subst p. by destruct y.
Qed.

Lemma open_handshakes_callback (k : nat) (r : list task_instance) :
  open_handshakes (settle (OnCallback k) (Fulfilled Undefined) <$> r)
  = open_handshakes r.
Proof.
  unfold open_handshakes. induction r as [|t r IH]; [done|].
  cbn. rewrite handshake_open_callback.
  destruct (handshake_open t); cbn; by rewrite IH.
Qed.

Lemma handshake_step (s : state) (e : event) :
  consistent s →
  length (api_calls (history s))
    = length (dispatched (history s)) + open_handshakes (running s) →
  length (api_calls (history (step s e)))
    = length (dispatched (history (step s e)))
      + open_handshakes (running (step s e)).
Proof.
  intros Hc Hinv. unfold open_handshakes, api_calls, dispatched in *.
  destruct e as [|i installs|i|n|k]; cbn [step].
  - unfold load, perform. destruct (running s) eqn:Hrun; [|by rewrite Hrun].
    unfold loadTask_start, loadJsApi.
    destruct (truthy (window_google s)); cbn; rewrite Hrun; cbn in *; [done|].
    rewrite !omap_app. cbn. rewrite !app_nil_r. done.
  - destruct (script_pending s i) eqn:Hp; [|done].
    apply (pending_awaited s Hc) in Hp. unfold fire. cbn.
    rewrite Hp in *. cbn in *. unfold settle. cbn. by case_decide.
  - destruct (script_pending s i) eqn:Hp; [|done].
    apply (pending_awaited s Hc) in Hp. unfold fire. cbn.
    rewrite Hp in *. cbn in *. unfold settle. cbn. by case_decide.
  - destruct (running s !! n) as [t|] eqn:Hn; [|done].
    pose proof (one_instance s Hc) as Hlen.
    destruct (running s) as [|t' [|t'' r]] eqn:Hrun; cbn in Hlen; [done| |lia].
    destruct n; [|done]. injection Hn as ->.
    destruct t as [y p]. unfold loadTask_resume. cbn.
    destruct p as [| |v|]; [by rewrite Hrun..| |].
    + destruct y.
      * destruct v; cbn; rewrite Hrun; cbn in *; [done|].
        rewrite !omap_app. cbn.
        rewrite app_nil_r, length_app. cbn. lia.
      * cbn. rewrite Hrun. cbn in *.
        rewrite !omap_app. cbn.
        rewrite app_nil_r, length_app. cbn. lia.
    + cbn. rewrite Hrun. destruct y; cbn in *; lia.
  - cbn. rewrite Hinv. f_equal. symmetry. apply open_handshakes_callback.
Qed.

(** X8.  In every state the service can reach, each call of [api.load]
    is accounted for: the calls made so far are as many as the events
    dispatched so far, plus one if an instance has called [api.load] and
    has not finished yet.  So no event is dispatched without its call of
    the package loader, and no call yields two events. *)
Theorem handshakes_match_events (g : jsval) (tr : list event) :
  let s := run (init g) tr in
  length (api_calls (history s))
  = length (dispatched (history s)) + open_handshakes (running s).
Proof.
  cbn zeta. induction tr as [|e tr IH] using rev_ind; [reflexivity|].
  rewrite run_app. apply handshake_step; [|exact IH].
  apply reachable_consistent.
Qed.

(** ** Repeated events *)

Lemma loadTask_start_busy (s : state) : running (loadTask_start s) ≠ [].
Proof.
  unfold loadTask_start, loadJsApi.
  destruct (truthy (window_google s)); cbn; destruct (running s); done.
Qed.

Lemma settle_twice (w r : promise) (t : task_instance) :
  r ≠ w → settle w r (settle w r t) = settle w r t.
Proof.
  intros Hne. unfold settle.
  destruct (decide (awaiting t = w)) as [Hw|Hw]; cbn.
  - rewrite decide_False; done.
  - rewrite decide_False; done.
Qed.

Lemma fire_not_pending (i : nat) st g r (s : state) :
  st ≠ Pending → script_pending (fire i st g r s) i = false.
Proof.
  intros Hst. destruct (script_pending (fire i st g r s) i) eqn:E; [|done].
  apply script_pending_fire in E as [_ Hne]; done.
Qed.

(** X9.  A call of [load()], the load or error event of a script element,
    or a callback of the package loader, delivered twice in a row, has the
    effect of one: calling [load()] again at once never starts a second
    run, a script element fires only once, and a second invocation of the
    callback is ignored. *)
Theorem repeated_event_harmless (s : state) (e : event) :
  (∀ n, e ≠ Resume n) → step (step s e) e = step s e.
Proof.
  intros Hne. destruct e as [|i installs|i|n|k].
  - apply load_busy. cbn. unfold load, perform.
    destruct (running s) eqn:Hrun; [apply loadTask_start_busy|].
    rewrite Hrun. done.
  - cbn [step]. destruct (script_pending s i) eqn:Hp.
    + rewrite fire_not_pending; done.
    + rewrite Hp. done.
  - cbn [step]. destruct (script_pending s i) eqn:Hp.
    + rewrite fire_not_pending; done.
    + rewrite Hp. done.
  - by destruct (Hne n).
  - cbn [step]. unfold set_running. cbn. f_equal.
    rewrite <- list_fmap_compose. apply list_fmap_ext.
    intros j t _. cbn. apply settle_twice. done.
Qed.

Lemma repeated_event_harmless_witness :
  run (init Undefined) [Load; ScriptOnload 0 true; ScriptOnload 0 true]
  = run (init Undefined) [Load; ScriptOnload 0 true].
Proof.
  apply (repeated_event_harmless (run (init Undefined) [Load])
           (ScriptOnload 0 true)).
  intros n. discriminate.
Defined.

(** ** Runs that fail and runs that follow them *)

Lemma dispatched_appends (n : nat) (url : string) :
  dispatched (replicate n (AppendChild url)) = [].
Proof. induction n as [|n IH]; [reflexivity|exact IH]. Qed.

Lemma unusable_run_spec (s : state) (n1 n2 n3 : nat) :
  running s = [] → window_google s = Undefined →
  run s (unusable_run s n1 n2 n3) =
  {| loaded := loaded s; window_google := Undefined;
     body := body s ++ [jsapi_script Loaded];
     running := []; callbacks := callbacks s;
     history := history s ++ [AppendChild jsapi_url] |}.
Proof.
  destruct s as [l g b r c h]. cbn. intros -> ->. unfold unusable_run. cbn.
  one_event. unfold load, perform, loadTask_start, loadJsApi. norm.
  skip_calls. one_event. rewrite script_pending_last. norm.
  fold_suspended. rewrite alter_last. norm.
  skip_calls. one_event. skip_calls. one_event. reflexivity.
Qed.

(** X10.  A run whose script element loads but leaves [window.google]
    undefined fails: [loadCoreChart] is given [undefined], the package
    loader is not called, the flag keeps its value, nothing is dispatched,
    and the instance ends, so that a later call of [load()] appends a new
    script element. *)
Theorem script_without_namespace_fails
    (s : state) (n1 n2 n3 : nat) :
  running s = [] → window_google s = Undefined →
  let s' := run s (unusable_run s n1 n2 n3) in
  loaded s' = loaded s ∧
  history s' = history s ++ [AppendChild jsapi_url] ∧
  callbacks s' = callbacks s ∧
  running s' = [] ∧
  body (step s' Load) = body s ++ [jsapi_script Loaded; jsapi_script Pending].
Proof.
  intros Hidle Hg s'. subst s'. rewrite unusable_run_spec by done.
  cbn. rewrite <- app_assoc. done.
Qed.

Lemma script_without_namespace_fails_witness :
  let s' := run (init Undefined)
              [Load; ScriptOnload 0 false; Load; Resume 0; Resume 0] in
  loaded s' = false ∧ history s' = [AppendChild jsapi_url] ∧
  callbacks s' = 0 ∧ running s' = [] ∧
  body (step s' Load) = [jsapi_script Loaded; jsapi_script Pending].
Proof.
  apply (script_without_namespace_fails (init Undefined) 0 1 0); reflexivity.
Defined.

(** X11.  Failure does not spoil later runs: after any number of runs
    whose script element failed to load, a run whose script loads and
    whose package loader calls back sets the flag and dispatches one
    event; the body then holds the failed elements followed by the loaded
    one. *)
Theorem retry_after_failures_succeeds
    (s : state) (ns : list (nat * nat)) (n1 n2 n3 n4 : nat) :
  running s = [] → window_google s = Undefined →
  let s1 := run s (failed_runs (length (body s)) ns) in
  let s2 := run s1 (successful_run s1 n1 n2 n3 n4) in
  loaded s2 = true ∧
  window_google s2 = Namespace ∧
  body s2 = body s ++ replicate (length ns) (jsapi_script Errored)
                   ++ [jsapi_script Loaded] ∧
  dispatched (history s2)
    = dispatched (history s) ++ [createEvent "googleChartsLoaded"] ∧
  running s2 = [].
Proof.
  intros Hidle Hg s1 s2. subst s2 s1.
  rewrite failed_runs_spec by done.
  rewrite successful_run_spec by reflexivity. cbn.
  split; [done|]. split; [done|]. split; [by rewrite <- app_assoc|].
  split; [|done].
  rewrite !dispatched_app, dispatched_appends, app_nil_r. reflexivity.
Qed.

Lemma retry_after_failures_succeeds_witness :
  let s2 := run (init Undefined)
              [Load; ScriptOnerror 0; Resume 0;
               Load; ScriptOnload 1 true; Resume 0; PackageCallback 0; Resume 0] in
  loaded s2 = true ∧ window_google s2 = Namespace ∧
  body s2 = [jsapi_script Errored; jsapi_script Loaded] ∧
  dispatched (history s2) = [createEvent "googleChartsLoaded"] ∧
  running s2 = [].
Proof.
  apply (retry_after_failures_succeeds (init Undefined) [(0, 0)] 0 0 0 0);
    reflexivity.
Defined.

(** ** The service can always still be loaded *)





End GoogleCharts.
